(** * Multi_Track_Data_Report: ingestion and statistics of report_generator.py

    A shallow embedding of [load_and_clean_excel] and [compute_statistics]
    of [report_generator.py].

    Conventions of the embedding:
    - a spreadsheet cell, as [pd.read_excel] delivers it and as the cleaning
      step rewrites it, is a [cell]: a string, a Python [int], a float (kept
      as the text [str] prints for it, which is all the cleaning looks at
      besides its truthiness), a bool, the float [nan] of an empty Excel
      cell, or [pd.NA] written by the [replace] step;
    - strings are ASCII ([String.string]); the regular expression class
      [\d] is then ['0'..'9'];
    - numbers produced by [pd.to_numeric] and the means of the statistics
      are exact rationals [Q]; the Pearson coefficient, which takes a square
      root, is a real number;
    - a pandas null ([NaN], [pd.NA]) in a numeric or boolean column of the
      normalized data is [None]. *)

From Stdlib Require Import Bool ZArith QArith List String Ascii Lia.
From Stdlib Require Import Qfield Reals Qreals Sorted Permutation Lqa.
Import ListNotations.
Open Scope Z_scope.

(** ** Cells and their text *)

Inductive cell : Type :=
| CStr (s : string)
| CInt (z : Z)
| CFloat (repr : string)
| CBool (b : bool)
| CNaN
| CNA.

Definition digit_char (d : Z) : ascii := ascii_of_nat (48 + Z.to_nat d).

(** Decimal digits of [n >= 0], in front of [acc] ([fuel] bounds the
    number of divisions by 10). *)
Fixpoint digits_acc (fuel : nat) (n : Z) (acc : list ascii) : list ascii :=
  match fuel with
  | O => digit_char n :: acc
  | S fuel' =>
      if n <? 10 then digit_char n :: acc
      else digits_acc fuel' (n / 10) (digit_char (n mod 10) :: acc)
  end.

Definition digits_of (n : Z) : list ascii := digits_acc (Z.to_nat n) n [].

(** [str(z)] for a Python [int]. *)
Definition int_repr (z : Z) : string :=
  if z <? 0 then string_of_list_ascii ("-"%char :: digits_of (- z))
  else string_of_list_ascii (digits_of z).

(** [x.astype(str)]: the text of a cell. *)
Definition cell_str (c : cell) : string :=
  match c with
  | CStr s => s
  | CInt z => int_repr z
  | CFloat r => r
  | CBool true => "True"
  | CBool false => "False"
  | CNaN => "nan"
  | CNA => "<NA>"
  end.

(** ** Step 1: [df.replace] of the tokens ["Waived"], ["N/A"], ["NA"] and the
    empty string by [pd.NA] *)

Definition missing_tokens : list string := ["Waived"; "N/A"; "NA"; EmptyString]%string.

Definition replace_missing (c : cell) : cell :=
  match c with
  | CStr s => if existsb (String.eqb s) missing_tokens then CNA else CStr s
  | _ => c
  end.

(** ** Step 2: numeric columns
    [df[col].astype(str).str.extract(PATTERN, expand=False)] with the
    pattern [\d+\.?\d* ] in one group,
    followed by [pd.to_numeric(..., errors="coerce")]. *)

Definition is_digit (a : ascii) : bool :=
  let n := nat_of_ascii a in (48 <=? n)%nat && (n <=? 57)%nat.

(** Greedy [\d*]: the longest digit prefix and the rest. *)
Fixpoint take_digits (l : list ascii) : list ascii * list ascii :=
  match l with
  | a :: t =>
      if is_digit a then let (d, r) := take_digits t in (a :: d, r)
      else ([], l)
  | [] => ([], [])
  end.

(** [re.search] of that pattern: the leftmost match starts at the first
    digit; [\d+], [\.?] and [\d*] are then all greedy. *)
Fixpoint extract_number (l : list ascii) : option (list ascii * list ascii) :=
  match l with
  | [] => None
  | a :: t =>
      if is_digit a then
        let (d, r) := take_digits l in
        match r with
        | "."%char :: r' => Some (d, fst (take_digits r'))
        | _ => Some (d, [])
        end
      else extract_number t
  end.

Definition digit_val (a : ascii) : Z := Z.of_nat (nat_of_ascii a) - 48.

Definition digits_val (l : list ascii) : Z :=
  fold_left (fun v a => 10 * v + digit_val a) l 0.

(** [pd.to_numeric] of the matched text ["<int part>.<fraction>"]. *)
Definition to_numeric (m : list ascii * list ascii) : Q :=
  let (ip, fp) := m in
  Qmake (digits_val (ip ++ fp)) (Z.to_pos (10 ^ Z.of_nat (List.length fp))).

Definition coerce_numeric (c : cell) : option Q :=
  match extract_number (list_ascii_of_string (cell_str c)) with
  | Some m => Some (to_numeric m)
  | None => None
  end.

(** ** Step 3: [df["IncomeStudent"].astype(bool)]

    On an object column numpy converts each element with Python's [bool()];
    [bool(pd.NA)] raises [TypeError: boolean value of NA is ambiguous]. *)

Inductive outcome (A : Type) : Type :=
| Ok (a : A)
| TypeError.
Arguments Ok {A} a.
Arguments TypeError {A}.

(** Python truthiness of the non-[pd.NA] cells. *)
Definition py_truthy (c : cell) : bool :=
  match c with
  | CStr EmptyString => false
  | CStr _ => true
  | CInt z => negb (z =? 0)
  | CFloat r => negb (String.eqb r "0.0" || String.eqb r "-0.0")
  | CBool b => b
  | CNaN => true
  | CNA => true
  end.

Definition astype_bool (c : cell) : outcome bool :=
  match c with
  | CNA => TypeError
  | _ => Ok (py_truthy c)
  end.

(** ** Step 4: [df["Passed (Y/N)"].astype(str).str.strip().str.upper()]
    then [.map({"Y": True, "N": False})] *)

(** The ASCII characters for which Python's [str.isspace] holds. *)
Definition py_space (a : ascii) : bool :=
  let n := nat_of_ascii a in
  ((9 <=? n) && (n <=? 13))%nat || ((28 <=? n) && (n <=? 32))%nat.

Fixpoint drop_space (l : list ascii) : list ascii :=
  match l with
  | a :: t => if py_space a then drop_space t else l
  | [] => []
  end.

Definition py_strip (s : string) : string :=
  string_of_list_ascii (rev (drop_space (rev (drop_space (list_ascii_of_string s))))).

Definition upper_char (a : ascii) : ascii :=
  let n := nat_of_ascii a in
  if ((97 <=? n) && (n <=? 122))%nat then ascii_of_nat (n - 32) else a.

Definition py_upper (s : string) : string :=
  string_of_list_ascii (map upper_char (list_ascii_of_string s)).

Definition passed_map (s : string) : option bool :=
  if String.eqb s "Y" then Some true
  else if String.eqb s "N" then Some false
  else None.

Definition decode_passed (c : cell) : option bool :=
  passed_map (py_upper (py_strip (cell_str c))).

(** ** Rows *)

(** A row of a source sheet: the columns the cleaning reads. *)
Record raw_row : Type := {
  r_math : cell; r_english : cell; r_science : cell; r_history : cell;
  r_attendance : cell; r_project : cell;
  r_income : cell; r_passed : cell; r_cohort : cell }.

(** A row of the cleaned DataFrame ([Track], the six numeric columns,
    [IncomeStudent], [Passed (Y/N)], [Cohort]). *)
Record record : Type := {
  track : option string;
  math : option Q; english : option Q; science : option Q;
  history : option Q; attendance : option Q; project : option Q;
  income_student : bool;
  passed : option bool;
  cohort : option string }.

(** A label column left untouched by the cleaning, read as a group key:
    a null cell is [None], any other cell its text. *)
Definition cell_label (c : cell) : option string :=
  match c with
  | CNA | CNaN => None
  | _ => Some (cell_str c)
  end.

(** The body of the loop of [load_and_clean_excel] on one row of the sheet
    [track_name]: [df["Track"] = track_name], then [replace] on every
    column, then the coercions. *)
Definition clean_row (track_name : string) (r : raw_row) : outcome record :=
  let tr := replace_missing (CStr track_name) in
  match astype_bool (replace_missing (r_income r)) with
  | TypeError => TypeError
  | Ok inc =>
      Ok {| track := cell_label tr;
            math := coerce_numeric (replace_missing (r_math r));
            english := coerce_numeric (replace_missing (r_english r));
            science := coerce_numeric (replace_missing (r_science r));
            history := coerce_numeric (replace_missing (r_history r));
            attendance := coerce_numeric (replace_missing (r_attendance r));
            project := coerce_numeric (replace_missing (r_project r));
            income_student := inc;
            passed := decode_passed (replace_missing (r_passed r));
            cohort := cell_label (replace_missing (r_cohort r)) |}
  end.

Fixpoint map_outcome {A B : Type} (f : A -> outcome B) (l : list A)
  : outcome (list B) :=
  match l with
  | [] => Ok []
  | x :: t =>
      match f x with
      | TypeError => TypeError
      | Ok y => match map_outcome f t with
                | TypeError => TypeError
                | Ok ys => Ok (y :: ys)
                end
      end
  end.

(** [load_and_clean_excel] on the sheets of the workbook, in order:
    each sheet cleaned, then [pd.concat(all_dfs, ignore_index=True)]. *)
Definition load_and_clean_excel (sheets : list (string * list raw_row))
  : outcome (list record) :=
  match map_outcome (fun '(name, rows) => map_outcome (clean_row name) rows) sheets with
  | TypeError => TypeError
  | Ok dfs => Ok (List.concat dfs)
  end.

(** ** Aggregation: [compute_statistics] *)

Fixpoint somes {A : Type} (l : list (option A)) : list A :=
  match l with
  | [] => []
  | Some x :: t => x :: somes t
  | None :: t => somes t
  end.

Definition Qsum (l : list Q) : Q := fold_right Qplus 0%Q l.

(** [Series.mean()] (with [skipna=True]): the mean of the non-null values,
    null when there is none. *)
Definition mean (l : list (option Q)) : option Q :=
  match somes l with
  | [] => None
  | xs => Some (Qsum xs / inject_Z (Z.of_nat (List.length xs)))%Q
  end.

Definition bool_to_Q (b : bool) : Q := if b then 1%Q else 0%Q.

(** [mean] of the boolean column [Passed (Y/N)], read as 0/1. *)
Definition pass_mean (l : list (option bool)) : option Q :=
  mean (map (option_map bool_to_Q) l).

(** [Series.count()]: the non-null values. *)
Definition count_some {A : Type} (l : list (option A)) : nat :=
  List.length (somes l).

(** One row of the [track], [cohort] and [income] tables. *)
Record group_stats : Type := {
  Students : nat;
  MathAvg : option Q; EnglishAvg : option Q; ScienceAvg : option Q;
  HistoryAvg : option Q; AttendanceAvg : option Q; ProjectAvg : option Q;
  PassRate : option Q }.

(** The named aggregation of the three [groupby(...).agg(...)] calls. *)
Definition agg_group (g : list record) : group_stats :=
  {| Students := count_some (map track g);
     MathAvg := mean (map math g);
     EnglishAvg := mean (map english g);
     ScienceAvg := mean (map science g);
     HistoryAvg := mean (map history g);
     AttendanceAvg := mean (map attendance g);
     ProjectAvg := mean (map project g);
     PassRate := pass_mean (map passed g) |}.

Section GroupBy.
Context {K : Type} (keqb : K -> K -> bool) (kltb : K -> K -> bool).

Fixpoint insert_key (k : K) (l : list K) : list K :=
  match l with
  | [] => [k]
  | x :: t => if kltb k x then k :: l else x :: insert_key k t
  end.

Definition sort_keys (l : list K) : list K := fold_right insert_key [] l.

(** [unique()]: first occurrences, in order. *)
Fixpoint unique_acc (seen : list K) (l : list K) : list K :=
  match l with
  | [] => []
  | x :: t =>
      if existsb (keqb x) seen then unique_acc seen t
      else x :: unique_acc (x :: seen) t
  end.

Definition key_matches (key : record -> option K) (k : K) (r : record) : bool :=
  match key r with Some k' => keqb k' k | None => false end.

(** [df.groupby(key)] (with [sort=True], [dropna=True]): the sorted
    non-null keys, each with its rows in their order. *)
Definition groupby (key : record -> option K) (df : list record)
  : list (K * list record) :=
  map (fun k => (k, filter (key_matches key k) df))
      (sort_keys (unique_acc [] (somes (map key df)))).
End GroupBy.

Definition bool_ltb (a b : bool) : bool := negb a && b.

Definition groupby_track := groupby String.eqb String.ltb track.
(** The [Cohort] key of a row is the text of its cell ([cell_label]); this is
    pandas' grouping when the column holds strings.  For a column of numbers
    pandas orders the groups numerically and merges equal values of
    different types, so the order of the [cohort] table and the grouping of
    mixed columns are only those of a string column here. *)
Definition groupby_cohort := groupby String.eqb String.ltb cohort.
Definition groupby_income :=
  groupby Bool.eqb bool_ltb (fun r => Some (income_student r)).

(** [DataFrame.corr()] (Pearson, [min_periods=1]) read at [iloc[0, 1]]:
    over the pairs with both values non-null, the co-moment divided by
    [sqrt(ssqdmx * ssqdmy)]; [NaN] when there is no pair or when that
    divisor is 0. *)
Definition pearson (ps : list (Q * Q)) : option R :=
  match ps with
  | [] => None
  | _ =>
      let n := inject_Z (Z.of_nat (List.length ps)) in
      let mx := (Qsum (map fst ps) / n)%Q in
      let my := (Qsum (map snd ps) / n)%Q in
      let sxx := Qsum (map (fun p => (fst p - mx) * (fst p - mx)) ps)%Q in
      let syy := Qsum (map (fun p => (snd p - my) * (snd p - my)) ps)%Q in
      let sxy := Qsum (map (fun p => (fst p - mx) * (snd p - my)) ps)%Q in
      if Qeq_bool (sxx * syy) 0 then None
      else Some (Q2R sxy / sqrt (Q2R (sxx * syy)))%R
  end.

Definition att_proj (r : record) : option (Q * Q) :=
  match attendance r, project r with
  | Some a, Some p => Some (a, p)
  | _, _ => None
  end.

(** [df["Track"] == track]: a null on either side compares unequal. *)
Definition track_eq (t k : option string) : bool :=
  match t, k with
  | Some a, Some b => String.eqb a b
  | _, _ => false
  end.

Definition option_string_eqb (a b : option string) : bool :=
  match a, b with
  | Some x, Some y => String.eqb x y
  | None, None => true
  | _, _ => false
  end.

(** The loop [for track in df["Track"].unique(): ...]. *)
Definition attendance_project_corr (df : list record) : list (option string * option R) :=
  map (fun t =>
         (t, pearson (somes (map att_proj (filter (fun r => track_eq (track r) t) df)))))
      (unique_acc option_string_eqb [] (map track df)).

(** [df.agg({...: "mean"})]. *)
Record global_stats : Type := {
  G_Math : option Q; G_English : option Q; G_Science : option Q;
  G_History : option Q; G_Attendance : option Q; G_Project : option Q;
  G_Passed : option Q }.

(** The dictionary [stats] returned by [compute_statistics]. *)
Record stats_bundle : Type := {
  s_track : list (string * group_stats);
  s_cohort : list (string * group_stats);
  s_income : list (bool * group_stats);
  s_history_by_track : list (string * list (option Q));
  s_math_comparison : list (string * option Q);
  s_attendance_project_corr : list (option string * option R);
  s_global : global_stats }.

Definition agg_table {K : Type} (gs : list (K * list record)) : list (K * group_stats) :=
  map (fun '(k, g) => (k, agg_group g)) gs.

Definition compute_statistics (df : list record) : stats_bundle :=
  {| s_track := agg_table (groupby_track df);
     s_cohort := agg_table (groupby_cohort df);
     s_income := agg_table (groupby_income df);
     s_history_by_track := map (fun '(k, g) => (k, map history g)) (groupby_track df);
     s_math_comparison := map (fun '(k, g) => (k, mean (map math g))) (groupby_track df);
     s_attendance_project_corr := attendance_project_corr df;
     s_global :=
       {| G_Math := mean (map math df); G_English := mean (map english df);
          G_Science := mean (map science df); G_History := mean (map history df);
          G_Attendance := mean (map attendance df); G_Project := mean (map project df);
          G_Passed := pass_mean (map passed df) |} |}.

(** ** Reading aids for the statements *)

(** The pass rate in the words of the spec: the number of [true] values over
    the number of non-null [passed] values of the rows, null when there is
    none. *)
Definition pass_fraction (rows : list record) : option Q :=
  match somes (map passed rows) with
  | [] => None
  | ps => Some (inject_Z (Z.of_nat (List.length (filter (fun b => b) ps)))
                / inject_Z (Z.of_nat (List.length ps)))%Q
  end.

Definition opt_Qeq (a b : option Q) : Prop :=
  match a, b with
  | Some x, Some y => (x == y)%Q
  | None, None => True
  | _, _ => False
  end.

Definition nonneg_opt (o : option Q) : Prop :=
  match o with Some q => (0 <= q)%Q | None => True end.

(** The rows of [df] the loop of [attendance_project_corr] uses for [t]. *)
Definition corr_pairs (df : list record) (t : option string) : list (Q * Q) :=
  somes (map att_proj (filter (fun r => track_eq (track r) t) df)).

Fixpoint lookup_key {K V : Type} (keqb : K -> K -> bool) (k : K) (l : list (K * V))
  : option V :=
  match l with
  | [] => None
  | (k', v) :: t => if keqb k' k then Some v else lookup_key keqb k t
  end.

(** What the spec asks of one row of the [track], [cohort] or [income]
    tables computed from the rows [rows] of its group: the pass rate is
    the fraction of [true] among the non-null [passed] values, null when
    they are all null, and a mean over no non-null value is null. *)
Definition group_summary_ok (rows : list record) (st : group_stats) : Prop :=
  opt_Qeq (PassRate st) (pass_fraction rows) /\
  (somes (map passed rows) = [] -> PassRate st = None) /\
  (somes (map math rows) = [] -> MathAvg st = None) /\
  (somes (map english rows) = [] -> EnglishAvg st = None) /\
  (somes (map science rows) = [] -> ScienceAvg st = None) /\
  (somes (map history rows) = [] -> HistoryAvg st = None) /\
  (somes (map attendance rows) = [] -> AttendanceAvg st = None) /\
  (somes (map project rows) = [] -> ProjectAvg st = None).

Definition empty_global : global_stats :=
  {| G_Math := None; G_English := None; G_Science := None; G_History := None;
     G_Attendance := None; G_Project := None; G_Passed := None |}.

(** A source row with every cell empty but the given income and pass/fail
    cells. *)
Definition blank_row (income pass : cell) : raw_row :=
  {| r_math := CNaN; r_english := CNaN; r_science := CNaN; r_history := CNaN;
     r_attendance := CNaN; r_project := CNaN;
     r_income := income; r_passed := pass; r_cohort := CStr "2024" |}.

(** The value [compute_statistics] returns on a DataFrame without rows. *)
Definition empty_bundle : stats_bundle :=
  {| s_track := []; s_cohort := []; s_income := []; s_history_by_track := [];
     s_math_comparison := []; s_attendance_project_corr := [];
     s_global := empty_global |}.

(** ** [auto_load_excel]: the workbook that is read *)

(** [glob.glob(folder + "/student_grades_*.xlsx")] on the names [listing]
    of the entries of [folder]: the names that start with
    ["student_grades_"] and end with [".xlsx"] (the [*] may be empty), as
    paths. *)
Definition ends_with (suf s : string) : bool :=
  String.prefix (string_of_list_ascii (rev (list_ascii_of_string suf)))
                (string_of_list_ascii (rev (list_ascii_of_string s))).

Definition glob_match (name : string) : bool :=
  String.prefix "student_grades_" name && ends_with ".xlsx" name
  && (20 <=? String.length name)%nat.

Definition glob_files (folder : string) (listing : list string) : list string :=
  map (fun n => (folder ++ "/" ++ n)%string) (filter glob_match listing).

Inductive load_result : Type :=
| Found (path : string)
| FileNotFoundError.

(** The path [auto_load_excel] hands to [pd.read_excel]: [files.sort()]
    then [files[-1]]; [FileNotFoundError] when the glob finds nothing. *)
Definition auto_load_excel (folder : string) (listing : list string) : load_result :=
  match glob_files folder listing with
  | [] => FileNotFoundError
  | files => Found (last (sort_keys String.ltb files) EmptyString)
  end.

(** ** [generate_performance_alerts] *)

(** The lines it prints (the colour codes and the number formatting left
    out). *)
Inductive alert_line : Type :=
| AlertsHeader
| LowMath (name : string) (avg : Q)
| LowPassRate (name : string) (rate : Q)
| AlertsDone
| InvalidMode.

Definition Qlt_bool (x y : Q) : bool := negb (Qle_bool y x).

(** [if math_avg < 70] and [if pass_rate < 0.6]: a comparison with [NaN]
    is false. *)
Definition row_alerts (name : string) (st : group_stats) : list alert_line :=
  match MathAvg st with
  | Some m => if Qlt_bool m 70 then [LowMath name m] else []
  | None => []
  end ++
  match PassRate st with
  | Some p => if Qlt_bool p (6 # 10) then [LowPassRate name p] else []
  | None => []
  end.

Definition table_alerts (table : list (string * group_stats)) : list alert_line :=
  flat_map (fun '(name, st) => row_alerts name st) table.

Definition generate_performance_alerts (stats : stats_bundle) (mode : string)
  : list alert_line :=
  AlertsHeader ::
  (if String.eqb mode "track" then table_alerts (s_track stats) ++ [AlertsDone]
   else if String.eqb mode "cohort" then table_alerts (s_cohort stats) ++ [AlertsDone]
   else [InvalidMode]).

(** ** [generate_visuals]: the figures it saves *)

(** [f"{track}"]: a null track prints as [<NA>]. *)
Definition track_text (t : option string) : string :=
  match t with Some s => s | None => "<NA>" end.

Inductive figure : Type :=
| HistPlot (t : option string) (data : list (option Q)) (file : string)
| BoxPlot (data : list (option string * option Q)) (file : string)
| MathBar (bars : list (string * option Q)) (file : string)
| CorrPlot (t : option string) (points : list (option Q * option Q)) (file : string).

Definition generate_visuals (output_folder : string) (df : list record) : list figure :=
  let tracks := unique_acc option_string_eqb [] (map track df) in
  let subset t := filter (fun r => track_eq (track r) t) df in
  map (fun t => HistPlot t (map history (subset t))
          (output_folder ++ "/history_distribution_" ++ track_text t ++ ".png")%string)
      tracks ++
  [BoxPlot (map (fun r => (track r, history r)) df)
     (output_folder ++ "/history_boxplot.png")%string;
   MathBar (map (fun '(k, g) => (k, mean (map math g))) (groupby_track df))
     (output_folder ++ "/math_comparison.png")%string] ++
  map (fun t => CorrPlot t (map (fun r => (attendance r, project r)) (subset t))
          (output_folder ++ "/attendance_project_corr_" ++ track_text t ++ ".png")%string)
      tracks.

(** The tracks of the History histograms, in the order they are drawn. *)
Definition hist_tracks (figs : list figure) : list (option string) :=
  flat_map (fun f => match f with HistPlot t _ _ => [t] | _ => [] end) figs.

(** ** The menus of the command line

    The lines typed by the user are a list; [input()] on an exhausted input
    raises [EOFError].  What a run does is recorded as the list of the
    actions it performs (the screen clearing and menu printing left out). *)

Inductive action : Type :=
| ShowTrack | ShowMathComparison | ShowCorr | ShowHistory
| ShowCohort | ShowCohortPassRate | ShowIncome | ShowIncomePassRate
| GenerateVisuals | ExportOutputs | TrackAlerts | CohortAlerts
| Goodbye.

Definition track_menu : list (string * action) :=
  [("1", ShowTrack); ("2", ShowMathComparison); ("3", ShowCorr); ("4", ShowHistory)]%string.
Definition cohort_menu : list (string * action) :=
  [("1", ShowCohort); ("2", ShowCohortPassRate)]%string.
Definition income_menu : list (string * action) :=
  [("1", ShowIncome); ("2", ShowIncomePassRate)]%string.
Definition visuals_menu : list (string * action) := [("1", GenerateVisuals)]%string.
Definition export_menu : list (string * action) := [("1", ExportOutputs)]%string.
Definition alerts_menu : list (string * action) :=
  [("1", TrackAlerts); ("2", CohortAlerts)]%string.

(** The loop of every submenu: an option performs its action and then
    waits for ENTER ([input(...)] reads one line), ["0"] returns to the main
    menu, any other choice also waits for ENTER.  The result is the actions
    and the remaining input, or [None] for [EOFError]. *)
Fixpoint submenu (opts : list (string * action)) (inp : list string)
  : list action * option (list string) :=
  match inp with
  | [] => ([], None)
  | c :: rest =>
      if String.eqb c "0" then ([], Some rest)
      else
        let acts := match lookup_key String.eqb c opts with
                    | Some a => [a]
                    | None => []
                    end in
        match rest with
        | [] => (acts, None)
        | _ :: rest' => let (tr, r) := submenu opts rest' in (acts ++ tr, r)
        end
  end.

Definition main_choice (c : string) : option (list (string * action)) :=
  lookup_key String.eqb c
    [("1", track_menu); ("2", cohort_menu); ("3", income_menu);
     ("4", visuals_menu); ("5", export_menu); ("6", alerts_menu)]%string.

Inductive run_end : Type :=
| Quit
| EOFError
| OutOfFuel.

(** [main_menu]; [fuel] bounds the number of passes through its loop. *)
Fixpoint main_loop (fuel : nat) (inp : list string) : list action * run_end :=
  match fuel with
  | O => ([], OutOfFuel)
  | S f =>
      match inp with
      | [] => ([], EOFError)
      | c :: rest =>
          match main_choice c with
          | Some opts =>
              let (tr, r) := submenu opts rest in
              match r with
              | None => (tr, EOFError)
              | Some rest' => let (tr2, e) := main_loop f rest' in (tr ++ tr2, e)
              end
          | None =>
              if String.eqb c "0" then ([Goodbye], Quit)
              else match rest with
                   | [] => ([], EOFError)
                   | _ :: rest' => main_loop f rest'
                   end
          end
      end
  end.

(** Every pass reads at least one line, so [length inp + 1] passes are
    enough. *)
Definition main_menu (inp : list string) : list action * run_end :=
  main_loop (S (List.length inp)) inp.

(** The sum of the [Students] column of a table. *)
Definition students_total {K : Type} (tbl : list (K * group_stats)) : nat :=
  fold_right plus 0%nat (map (fun '(_, st) => Students st) tbl).

Definition is_some {A : Type} (o : option A) : bool :=
  match o with Some _ => true | None => false end.

(** The texts that [pd.read_excel] reads as [NaN] by default ([na_values]):
    a string cell it delivers never holds one of them. *)
Definition read_excel_na_values : list string :=
  ["-1.#IND"; "1.#QNAN"; "1.#IND"; "-1.#QNAN"; "#N/A N/A"; "#N/A"; "N/A"; "n/a";
   "NA"; "<NA>"; "#NA"; "NULL"; "null"; "NaN"; "-NaN"; "nan"; "-nan"; "None";
   EmptyString]%string.

Definition excel_cell_ok (c : cell) : bool :=
  match c with
  | CStr s => negb (existsb (String.eqb s) read_excel_na_values)
  | _ => true
  end.

(** A workbook [pd.read_excel] can deliver: no string cell holds one of its
    default missing-value texts. *)
Definition excel_book_ok (sheets : list (string * list raw_row)) : bool :=
  forallb (fun '(_, rows) =>
             forallb (fun r =>
                        forallb excel_cell_ok
                          [r_math r; r_english r; r_science r; r_history r;
                           r_attendance r; r_project r; r_income r; r_passed r;
                           r_cohort r]) rows) sheets.


(** Workbooks used to evaluate the code on concrete input. *)
Definition book_income_missing : list (string * list raw_row) :=
  [("A"%string, [blank_row (CInt 1) (CStr "Y"); blank_row (CStr "Waived") (CStr "N")])].

Definition book_sheet_NA : list (string * list raw_row) :=
  [("NA"%string, [blank_row (CInt 1) (CStr "Y")])].

(** * Properties *)

(** ** Lemmas on the cleaning steps *)

Example coerce_ex1 : coerce_numeric (CStr "85 pts") = Some (85 # 1).
Proof. reflexivity. Qed.
Example coerce_ex2 : coerce_numeric (CFloat "12.5") = Some (125 # 10).
Proof. reflexivity. Qed.
Example coerce_ex3 : coerce_numeric (CInt (-5)) = Some (5 # 1).
Proof. reflexivity. Qed.
Example coerce_ex4 : coerce_numeric (replace_missing (CStr "Waived")) = None.
Proof. reflexivity. Qed.


Lemma take_digits_digits (l d r : list ascii) :
  take_digits l = (d, r) -> Forall (fun a => is_digit a = true) d.
Proof.
  revert d r; induction l as [|a t IH]; simpl; intros d r H.
  - inversion H; constructor.
  - destruct (is_digit a) eqn:Ha.
    + destruct (take_digits t) as [d' r'] eqn:Ht. inversion H; subst.
      constructor; [exact Ha | exact (IH _ _ eq_refl)].
    + inversion H; constructor.
Qed.


Lemma extract_number_digits (l ip fp : list ascii) :
  extract_number l = Some (ip, fp) ->
  Forall (fun a => is_digit a = true) (ip ++ fp).
Proof.
  induction l as [|a t IH]; simpl; intros H; [discriminate|].
  destruct (is_digit a) eqn:Ha; [|exact (IH H)].
  destruct (take_digits t) as [d r] eqn:Ht.
  assert (Hd : Forall (fun a => is_digit a = true) (a :: d)).
  { constructor; [exact Ha | exact (take_digits_digits _ _ _ Ht)]. }
  destruct r as [|c r']; [inversion H; subst; rewrite app_nil_r; exact Hd|].
  destruct (Ascii.eqb c "."%char) eqn:Hc.
  - apply Ascii.eqb_eq in Hc; subst c.
    inversion H; subst. apply Forall_app; split; [exact Hd|].
    destruct (take_digits r') as [d2 r2] eqn:H2. exact (take_digits_digits _ _ _ H2).
  - assert (Hne : c <> "."%char) by (intro E; subst; discriminate).
    destruct c as [[] [] [] [] [] [] [] []];
      try (inversion H; subst; rewrite app_nil_r; exact Hd);
      exfalso; apply Hne; reflexivity.
Qed.







Lemma digits_val_nonneg (l : list ascii) :
  Forall (fun a => is_digit a = true) l -> 0 <= digits_val l.
Proof.
  unfold digits_val. intros Hall.
  assert (G : forall v, 0 <= v -> 0 <= fold_left (fun v a => 10 * v + digit_val a) l v).
  { induction Hall as [|a t Ha _ IH]; intros v Hv; cbn [fold_left]; [exact Hv|].
    apply IH. unfold is_digit in Ha. apply andb_true_iff in Ha as [H1 _].
    apply Nat.leb_le in H1. unfold digit_val. lia. }
  apply G; lia.
Qed.

Lemma coerce_numeric_nonneg (c : cell) : nonneg_opt (coerce_numeric c).
Proof.
  unfold coerce_numeric.
  destruct (extract_number _) as [[ip fp]|] eqn:He; simpl; [|exact I].
  pose proof (digits_val_nonneg _ (extract_number_digits _ _ _ He)).
  unfold Qle; simpl. lia.
Qed.



Lemma map_outcome_in {A B : Type} (f : A -> outcome B) (l : list A) (ys : list B) :
  map_outcome f l = Ok ys -> forall y, In y ys -> exists x, In x l /\ f x = Ok y.
Proof.
  revert ys; induction l as [|x t IH]; simpl; intros ys H y Hy.
  - inversion H; subst. destruct Hy.
  - destruct (f x) as [y0|] eqn:Hf; [|discriminate].
    destruct (map_outcome f t) as [ys'|] eqn:Ht; [|discriminate].
    inversion H; subst. destruct Hy as [<-|Hy].
    + exists x. split; [left; reflexivity | exact Hf].
    + destruct (IH ys' eq_refl y Hy) as [x' [Hx' Hfx']].
      exists x'. split; [right; exact Hx' | exact Hfx'].
Qed.


Lemma load_and_clean_excel_in (sheets : list (string * list raw_row)) (df : list record) :
  load_and_clean_excel sheets = Ok df ->
  forall rec, In rec df ->
  exists name rows r, In (name, rows) sheets /\ In r rows /\ clean_row name r = Ok rec.
Proof.
  unfold load_and_clean_excel. intros H rec Hin.
  destruct (map_outcome _ sheets) as [dfs|] eqn:Hm; [|discriminate].
  inversion H; subst df. apply in_concat in Hin as [d [Hd Hrec]].
  destruct (map_outcome_in _ _ _ Hm d Hd) as [[name rows] [Hs Hrows]].
  destruct (map_outcome_in _ _ _ Hrows rec Hrec) as [r [Hr Hc]].
  exists name, rows, r. auto.
Qed.

Lemma clean_row_numeric (name : string) (r : raw_row) (rec : record) :
  clean_row name r = Ok rec ->
  math rec = coerce_numeric (replace_missing (r_math r)) /\
  english rec = coerce_numeric (replace_missing (r_english r)) /\
  science rec = coerce_numeric (replace_missing (r_science r)) /\
  history rec = coerce_numeric (replace_missing (r_history r)) /\
  attendance rec = coerce_numeric (replace_missing (r_attendance r)) /\
  project rec = coerce_numeric (replace_missing (r_project r)).
Proof.
  unfold clean_row. destruct (astype_bool _); intros H; [|discriminate].
  inversion H; subst. repeat split.
Qed.

(** ** The cleaning step *)

(** C2: the pass/fail column is trimmed and uppercased, then exactly ["Y"]
    gives true, exactly ["N"] gives false, and every other text, among them
    the text of the missing cells ([pd.NA], [NaN]), gives null. *)
Theorem passed_decoding (c : cell) :
  let s := py_upper (py_strip (cell_str c)) in
  (decode_passed c = Some true <-> s = "Y"%string) /\
  (decode_passed c = Some false <-> s = "N"%string) /\
  (decode_passed c = None <-> s <> "Y"%string /\ s <> "N"%string) /\
  decode_passed CNA = None /\ decode_passed CNaN = None.
Proof.
  cbv zeta. unfold decode_passed, passed_map.
  set (s := py_upper (py_strip (cell_str c))).
  destruct (String.eqb_spec s "Y") as [HY|HY];
  [|destruct (String.eqb_spec s "N") as [HN|HN]];
  rewrite ?HY, ?HN; (split; [|split; [|split; [|split]]]); try reflexivity;
  split; intros; try split; try congruence; tauto.
Qed.

(** C8: once the missing tokens are replaced, an income cell that is not
    missing does not make the cleaning raise, and [IncomeStudent] is the
    cell's Python truthiness: [0] gives false and ["yes"] gives true. *)
Theorem income_truthiness (name : string) (r : raw_row)
  (H : replace_missing (r_income r) <> CNA) :
  (exists rec, clean_row name r = Ok rec /\
               income_student rec = py_truthy (replace_missing (r_income r))) /\
  astype_bool (replace_missing (CInt 0)) = Ok false /\
  astype_bool (replace_missing (CStr "yes")) = Ok true.
Proof.
  split; [|split; reflexivity].
  unfold clean_row.
  destruct (replace_missing (r_income r)) eqn:Hc; try (exfalso; exact (H eq_refl));
    eexists; (split; [reflexivity | reflexivity]).
Qed.

Lemma income_truthiness_witness :
  replace_missing (r_income (blank_row (CInt 0) (CStr "Y"))) <> CNA /\
  (exists rec, clean_row "A" (blank_row (CInt 0) (CStr "Y")) = Ok rec /\
               income_student rec = false).
Proof.
  split; [discriminate|].
  destruct (income_truthiness "A" (blank_row (CInt 0) (CStr "Y")) ltac:(discriminate))
    as [[rec [Hr Hi]] _].
  exists rec. split; [exact Hr | rewrite Hi; reflexivity].
Defined.

(** C4 (failing input): in a workbook [pd.read_excel] can deliver, an
    income column holding [1] and the token ["Waived"] (which [read_excel]
    keeps as a string): [replace] turns ["Waived"] into [pd.NA], and
    [astype(bool)] raises on it, so the whole cleaning raises instead of
    degrading the cell to null. *)
Theorem income_missing_raises :
  excel_book_ok book_income_missing = true /\
  astype_bool (replace_missing (CStr "Waived")) = TypeError /\
  load_and_clean_excel book_income_missing = TypeError.
Proof. split; [|split]; reflexivity. Qed.

(** C7 (failing input): the rows of a sheet named ["NA"] get their [Track]
    from the sheet name before the missing tokens are replaced, so their
    [Track] becomes null. *)
Theorem track_of_sheet_NA_is_null :
  match load_and_clean_excel book_sheet_NA with
  | Ok df => map track df
  | TypeError => []
  end = [None].
Proof. reflexivity. Qed.










(** C10: every numeric field of every cleaned row is null or a
    non-negative number. *)
Theorem numeric_fields_nonneg (sheets : list (string * list raw_row)) :
  match load_and_clean_excel sheets with
  | Ok df =>
      Forall (fun rec =>
                nonneg_opt (math rec) /\ nonneg_opt (english rec) /\
                nonneg_opt (science rec) /\ nonneg_opt (history rec) /\
                nonneg_opt (attendance rec) /\ nonneg_opt (project rec)) df
  | TypeError => True
  end.
Proof.
  destruct (load_and_clean_excel sheets) as [df|] eqn:H; [|exact I].
  apply Forall_forall. intros rec Hin.
  destruct (load_and_clean_excel_in _ _ H rec Hin) as [name [rows [r [_ [_ Hc]]]]].
  destruct (clean_row_numeric _ _ _ Hc) as [H1 [H2 [H3 [H4 [H5 H6]]]]].
  rewrite H1, H2, H3, H4, H5, H6. repeat split; apply coerce_numeric_nonneg.
Qed.

(** ** Lemmas on the aggregation *)

Lemma mean_none (l : list (option Q)) : mean l = None <-> somes l = [].
Proof. unfold mean. destruct (somes l); split; congruence. Qed.

Lemma somes_option_map {A B : Type} (f : A -> B) (l : list (option A)) :
  somes (map (option_map f) l) = map f (somes l).
Proof. induction l as [|[x|] t IH]; simpl; rewrite ?IH; reflexivity. Qed.

Lemma Qsum_bool (bs : list bool) :
  (Qsum (map bool_to_Q bs) == inject_Z (Z.of_nat (List.length (filter (fun b => b) bs))))%Q.
Proof.
  induction bs as [|b t IH]; [reflexivity|].
  cbn [map Qsum fold_right filter]. fold (Qsum (map bool_to_Q t)).
  rewrite IH. destruct b; cbn [List.length bool_to_Q].
  - rewrite Nat2Z.inj_succ, <- Z.add_1_l, inject_Z_plus. reflexivity.
  - rewrite Qplus_0_l. reflexivity.
Qed.

Lemma pass_mean_fraction (rows : list record) :
  opt_Qeq (pass_mean (map passed rows)) (pass_fraction rows).
Proof.
  unfold pass_mean, pass_fraction, mean. rewrite somes_option_map.
  destruct (somes (map passed rows)) as [|b bs] eqn:Hs; [exact I|].
  cbn [opt_Qeq map]. rewrite <- (Qsum_bool (b :: bs)).
  change (bool_to_Q b :: map bool_to_Q bs) with (map bool_to_Q (b :: bs)).
  rewrite length_map. reflexivity.
Qed.

Lemma agg_group_ok (rows : list record) : group_summary_ok rows (agg_group rows).
Proof.
  unfold group_summary_ok, agg_group; cbn [PassRate MathAvg EnglishAvg ScienceAvg
    HistoryAvg AttendanceAvg ProjectAvg].
  split; [apply pass_mean_fraction|].
  split; [intros H; unfold pass_mean; apply mean_none;
          rewrite somes_option_map, H; reflexivity|].
  repeat split; intros H; apply mean_none; exact H.
Qed.

Lemma agg_table_in {K : Type} (keqb kltb : K -> K -> bool) (key : record -> option K)
  (df : list record) (k : K) (st : group_stats) :
  In (k, st) (agg_table (groupby keqb kltb key df)) ->
  st = agg_group (filter (key_matches keqb key k) df).
Proof.
  unfold agg_table, groupby. rewrite map_map. intros H.
  apply in_map_iff in H as [k' [E _]]. inversion E; subst. reflexivity.
Qed.

Section Keys.
Context {K : Type} (keqb kltb : K -> K -> bool).
Hypothesis keqb_spec : forall a b, keqb a b = true <-> a = b.

Lemma in_insert_key (k x : K) (l : list K) :
  In x (insert_key kltb k l) <-> x = k \/ In x l.
Proof.
  induction l as [|y t IH]; simpl; [intuition congruence|].
  destruct (kltb k y); simpl; [intuition congruence|]. rewrite IH. intuition congruence.
Qed.

Lemma in_sort_keys (x : K) (l : list K) : In x (sort_keys kltb l) <-> In x l.
Proof.
  unfold sort_keys. induction l as [|y t IH]; simpl; [tauto|].
  rewrite in_insert_key, IH. intuition congruence.
Qed.

Lemma in_unique_acc (x : K) (seen l : list K) :
  In x l -> ~ In x seen -> In x (unique_acc keqb seen l).
Proof.
  revert seen; induction l as [|y t IH]; simpl; intros seen Hl Hs; [destruct Hl|].
  destruct (existsb (keqb y) seen) eqn:He.
  - apply existsb_exists in He as [z [Hz Hyz]]. apply keqb_spec in Hyz; subst z.
    destruct Hl as [<-|Hl]; [contradiction|]. exact (IH seen Hl Hs).
  - destruct Hl as [<-|Hl]; [left; reflexivity|].
    destruct (keqb_spec y x) as [_ Hyx].
    destruct (keqb y x) eqn:Hxy.
    + left. apply keqb_spec, Hxy.
    + right. apply IH; [exact Hl|]. intros [E|E]; [|contradiction].
      subst y. rewrite (proj2 (keqb_spec x x) eq_refl) in Hxy. discriminate.
Qed.

Lemma unique_acc_in (x : K) (seen l : list K) :
  In x (unique_acc keqb seen l) -> In x l.
Proof.
  revert seen; induction l as [|y t IH]; simpl; intros seen H; [exact H|].
  destruct (existsb (keqb y) seen).
  - right. exact (IH _ H).
  - destruct H as [<-|H]; [left; reflexivity | right; exact (IH _ H)].
Qed.

Lemma in_somes {A : Type} (a : A) (l : list (option A)) : In a (somes l) <-> In (Some a) l.
Proof.
  induction l as [|[b|] t IH]; simpl; [tauto| |].
  - rewrite IH. split; intros [H|H]; try (right; exact H); left; congruence.
  - rewrite IH. split; [intros H; right; exact H | intros [H|H]; [discriminate|exact H]].
Qed.

Lemma groupby_keys (key : record -> option K) (df : list record) (k : K) :
  In k (map fst (groupby keqb kltb key df)) <-> In (Some k) (map key df).
Proof.
  unfold groupby. rewrite map_map. cbn [fst]. rewrite map_id, in_sort_keys.
  split.
  - intros H. apply unique_acc_in in H. apply in_somes, H.
  - intros H. apply in_unique_acc; [apply in_somes, H | intros []].
Qed.
End Keys.

Lemma option_string_eqb_spec (a b : option string) :
  option_string_eqb a b = true <-> a = b.
Proof.
  destruct a as [x|], b as [y|]; simpl; try (split; congruence).
  rewrite String.eqb_eq. split; congruence.
Qed.

Lemma bool_eqb_spec (a b : bool) : Bool.eqb a b = true <-> a = b.
Proof. destruct a, b; simpl; split; congruence. Qed.

(** ** The aggregation step *)

(** C3: in each row of the [track], [cohort] and [income] tables, the pass
    rate is the fraction of [true] among the non-null [passed] values of
    the group, null (not 0) when they are all null, and each mean over a
    group with no non-null value is null. *)
Theorem group_tables_null_exclusion (df : list record) :
  (forall k st, In (k, st) (s_track (compute_statistics df)) ->
     group_summary_ok (filter (key_matches String.eqb track k) df) st) /\
  (forall k st, In (k, st) (s_cohort (compute_statistics df)) ->
     group_summary_ok (filter (key_matches String.eqb cohort k) df) st) /\
  (forall k st, In (k, st) (s_income (compute_statistics df)) ->
     group_summary_ok
       (filter (key_matches Bool.eqb (fun r => Some (income_student r)) k) df) st).
Proof.
  cbn [s_track s_cohort s_income compute_statistics].
  split; [|split]; intros k st H; apply agg_table_in in H; subst st; apply agg_group_ok.
Qed.

(** C5: [math_comparison] has the groups of the [track] table, in the same
    order, and for each the very value of its [MathAvg]. *)
Theorem math_comparison_is_track_MathAvg (df : list record) :
  s_math_comparison (compute_statistics df)
  = map (fun p => (fst p, MathAvg (snd p))) (s_track (compute_statistics df)) /\
  (forall g, lookup_key String.eqb g (s_math_comparison (compute_statistics df))
             = option_map MathAvg (lookup_key String.eqb g (s_track (compute_statistics df)))).
Proof.
  assert (E : s_math_comparison (compute_statistics df)
              = map (fun p => (fst p, MathAvg (snd p))) (s_track (compute_statistics df))).
  { cbn [s_math_comparison s_track compute_statistics]. unfold agg_table.
    rewrite map_map. apply map_ext. intros [k g]. reflexivity. }
  split; [exact E|]. intros g. rewrite E. clear E.
  induction (s_track (compute_statistics df)) as [|[k st] t IH]; simpl; [reflexivity|].
  destruct (String.eqb k g); [reflexivity | exact IH].
Qed.

(** ** The correlation loop *)

Lemma Qsum_ext {A : Type} (f g : A -> Q) (l : list A) :
  (forall x, In x l -> (f x == g x)%Q) -> (Qsum (map f l) == Qsum (map g l))%Q.
Proof.
  induction l as [|x t IH]; intros H; [reflexivity|].
  cbn [map Qsum fold_right]. fold (Qsum (map f t)) (Qsum (map g t)).
  rewrite (H x (or_introl eq_refl)), IH; [reflexivity|].
  intros y Hy. apply H. right. exact Hy.
Qed.

Lemma Qsum_const {A : Type} (a : Q) (l : list A) :
  (Qsum (map (fun _ => a) l) == inject_Z (Z.of_nat (List.length l)) * a)%Q.
Proof.
  induction l as [|x t IH]; [reflexivity|].
  cbn [map Qsum fold_right List.length]. fold (Qsum (map (fun _ : A => a) t)).
  rewrite IH, Nat2Z.inj_succ, <- Z.add_1_l, inject_Z_plus. ring.
Qed.

(** The sum of squared deviations from the mean of a component that is
    constant over the pairs is 0. *)
Lemma sq_dev_const (f : Q * Q -> Q) (ps : list (Q * Q)) (a : Q) :
  ps <> [] -> Forall (fun p => f p == a)%Q ps ->
  (Qsum (map (fun p => (f p - Qsum (map f ps) / inject_Z (Z.of_nat (List.length ps)))
                       * (f p - Qsum (map f ps) / inject_Z (Z.of_nat (List.length ps)))) ps)
   == 0)%Q.
Proof.
  intros Hne Hall. rewrite Forall_forall in Hall.
  assert (Hn : ~ (inject_Z (Z.of_nat (List.length ps)) == 0)%Q).
  { destruct ps as [|p t]; [congruence|].
    cbn [List.length]. rewrite Nat2Z.inj_succ. unfold Qeq; simpl. lia. }
  assert (Hm : (Qsum (map f ps) / inject_Z (Z.of_nat (List.length ps)) == a)%Q).
  { rewrite (Qsum_ext f (fun _ => a) ps Hall), Qsum_const. field. exact Hn. }
  rewrite (Qsum_ext _ (fun _ => 0%Q) ps), Qsum_const; [ring|].
  intros p Hp. rewrite Hm, (Hall p Hp). ring.
Qed.

Lemma pearson_const (ps : list (Q * Q)) (a : Q) :
  Forall (fun p => fst p == a)%Q ps \/ Forall (fun p => snd p == a)%Q ps ->
  pearson ps = None.
Proof.
  intros Hc. destruct ps as [|p0 t]; [reflexivity|].
  cbn beta iota zeta delta [pearson].
  match goal with |- context [Qeq_bool (Qmult ?sx ?sy) ?z] =>
    assert (Hb : Qeq_bool (Qmult sx sy) z = true) end.
  { apply Qeq_bool_iff. destruct Hc as [Hc|Hc].
    - rewrite (sq_dev_const fst (p0 :: t) a ltac:(discriminate) Hc). ring.
    - rewrite (sq_dev_const snd (p0 :: t) a ltac:(discriminate) Hc). ring. }
  rewrite Hb. reflexivity.
Qed.

Lemma pearson_short (ps : list (Q * Q)) :
  (List.length ps < 2)%nat -> pearson ps = None.
Proof.
  intros H. destruct ps as [|p [|q t]]; [reflexivity| |cbn [List.length] in H; lia].
  apply (pearson_const _ (fst p)). left. constructor; [reflexivity | constructor].
Qed.

Lemma attendance_project_corr_in (df : list record) (t : option string) (v : option R) :
  In (t, v) (attendance_project_corr df) -> v = pearson (corr_pairs df t).
Proof.
  unfold attendance_project_corr. intros H.
  apply in_map_iff in H as [t' [E _]]. inversion E; subst. reflexivity.
Qed.

Lemma attendance_project_corr_keys (df : list record) (t : option string) :
  In t (map fst (attendance_project_corr df)) <-> In t (map track df).
Proof.
  unfold attendance_project_corr. rewrite map_map. cbn [fst]. rewrite map_id.
  split; [apply unique_acc_in|].
  intros H. apply (in_unique_acc option_string_eqb option_string_eqb_spec); [exact H | intros []].
Qed.

Lemma agg_table_keys {K : Type} (gs : list (K * list record)) :
  map fst (agg_table gs) = map fst gs.
Proof. unfold agg_table. rewrite map_map. apply map_ext. intros [k g]. reflexivity. Qed.

Lemma track_keys (df : list record) (r : record) (t : string) :
  In r df -> track r = Some t -> In t (map fst (groupby_track df)).
Proof.
  intros Hr Ht. unfold groupby_track.
  apply (groupby_keys String.eqb String.ltb String.eqb_eq).
  rewrite <- Ht. apply in_map, Hr.
Qed.

(** C6: the correlation table has one entry per distinct [Track] value
    of the rows, and the entry of a track is the Pearson coefficient of the
    (attendance, project) pairs of its rows where both are non-null; it is
    null (not 0, and nothing is raised) when there are fewer than two such
    pairs or when either component is constant over them. *)
Theorem corr_per_track (df : list record) :
  (forall t, In t (map fst (s_attendance_project_corr (compute_statistics df)))
             <-> In t (map track df)) /\
  (forall t v, In (t, v) (s_attendance_project_corr (compute_statistics df)) ->
     v = pearson (corr_pairs df t) /\
     ((List.length (corr_pairs df t) < 2)%nat -> v = None) /\
     (forall a, Forall (fun p => fst p == a)%Q (corr_pairs df t) -> v = None) /\
     (forall a, Forall (fun p => snd p == a)%Q (corr_pairs df t) -> v = None)).
Proof.
  cbn [s_attendance_project_corr compute_statistics].
  split; [apply attendance_project_corr_keys|].
  intros t v H. apply attendance_project_corr_in in H. subst v.
  split; [reflexivity|]. split; [apply pearson_short|].
  split; intros a Ha; apply (pearson_const _ a); [left|right]; exact Ha.
Qed.

(** C1 (counterexample): on a DataFrame without rows [compute_statistics]
    raises nothing: it returns the seven views, all tables empty and the
    global means null. *)
Lemma compute_statistics_empty_returns :
  compute_statistics [] = empty_bundle.
Proof. reflexivity. Qed.

(** C1 (amended): [compute_statistics] is total.  Without rows it returns
    the seven views with empty tables and null global means; with rows,
    every [Track], [Cohort] and [IncomeStudent] value of a row is a group
    of the corresponding tables (and every track has its entries in
    [history_by_track], [math_comparison] and the correlations), and in
    each of the [track], [cohort] and [income] tables the entries of a
    group without non-null data for a field are null. *)
Theorem compute_statistics_views (df : list record) :
  compute_statistics [] = empty_bundle /\
  (forall r t, In r df -> track r = Some t ->
     In t (map fst (s_track (compute_statistics df))) /\
     In t (map fst (s_history_by_track (compute_statistics df))) /\
     In t (map fst (s_math_comparison (compute_statistics df))) /\
     In (Some t) (map fst (s_attendance_project_corr (compute_statistics df)))) /\
  (forall r c, In r df -> cohort r = Some c ->
     In c (map fst (s_cohort (compute_statistics df)))) /\
  (forall r, In r df -> In (income_student r) (map fst (s_income (compute_statistics df)))) /\
  (forall k st, In (k, st) (s_track (compute_statistics df)) ->
     group_summary_ok (filter (key_matches String.eqb track k) df) st) /\
  (forall k st, In (k, st) (s_cohort (compute_statistics df)) ->
     group_summary_ok (filter (key_matches String.eqb cohort k) df) st) /\
  (forall k st, In (k, st) (s_income (compute_statistics df)) ->
     group_summary_ok
       (filter (key_matches Bool.eqb (fun r => Some (income_student r)) k) df) st).
Proof.
  split; [reflexivity|].
  cbn [compute_statistics s_track s_cohort s_income s_history_by_track
       s_math_comparison s_attendance_project_corr].
  split; [|split; [|split; [|split; [|split]]]].
  - intros r t Hr Ht. pose proof (track_keys df r t Hr Ht) as Hk.
    split; [rewrite agg_table_keys; exact Hk|].
    split; [|split].
    + rewrite map_map. erewrite map_ext; [exact Hk|]. intros [k g]. reflexivity.
    + rewrite map_map. erewrite map_ext; [exact Hk|]. intros [k g]. reflexivity.
    + apply attendance_project_corr_keys. rewrite <- Ht. apply in_map, Hr.
  - intros r c Hr Hc. rewrite agg_table_keys. unfold groupby_cohort.
    apply (groupby_keys String.eqb String.ltb String.eqb_eq).
    rewrite <- Hc. apply in_map, Hr.
  - intros r Hr. rewrite agg_table_keys. unfold groupby_income.
    apply (groupby_keys Bool.eqb bool_ltb bool_eqb_spec).
    apply (in_map (fun r0 => Some (income_student r0))), Hr.
  - intros k st H. apply agg_table_in in H. subst st. apply agg_group_ok.
  - intros k st H. apply agg_table_in in H. subst st. apply agg_group_ok.
  - intros k st H. apply agg_table_in in H. subst st. apply agg_group_ok.
Qed.

(** ** Sorting the keys *)

Section Sorting.
Context {K : Type} (kltb : K -> K -> bool) (kle : K -> K -> Prop).
Hypothesis lt_le : forall a b, kltb a b = true -> kle a b.
Hypothesis nlt_le : forall a b, kltb a b = false -> kle b a.

Lemma insert_key_perm (k : K) (l : list K) : Permutation (insert_key kltb k l) (k :: l).
Proof.
  induction l as [|x t IH]; simpl; [reflexivity|].
  destruct (kltb k x); [reflexivity|].
  rewrite IH. apply perm_swap.
Qed.

Lemma sort_keys_perm (l : list K) : Permutation (sort_keys kltb l) l.
Proof.
  unfold sort_keys. induction l as [|x t IH]; simpl; [reflexivity|].
  rewrite insert_key_perm, IH. reflexivity.
Qed.

Lemma insert_key_sorted (k : K) (l : list K) :
  Sorted kle l -> Sorted kle (insert_key kltb k l).
Proof.
  induction 1 as [|x t Ht IH Hhd]; simpl; [repeat constructor|].
  destruct (kltb k x) eqn:Hk.
  - constructor; [constructor; assumption | constructor; apply lt_le, Hk].
  - constructor; [exact IH|].
    destruct t as [|y t']; simpl; [constructor; apply nlt_le, Hk|].
    destruct (kltb k y); constructor; [apply nlt_le, Hk|].
    inversion Hhd; assumption.
Qed.

Lemma sort_keys_sorted (l : list K) : Sorted kle (sort_keys kltb l).
Proof.
  unfold sort_keys. induction l as [|x t IH]; simpl; [constructor|].
  apply insert_key_sorted, IH.
Qed.

Hypothesis kle_trans : forall a b c, kle a b -> kle b c -> kle a c.

Lemma last_sorted_max (l : list K) (d x : K) :
  Sorted kle l -> In x l -> kle x (last l d).
Proof.
  intros Hs. apply Sorted_StronglySorted in Hs; [|exact kle_trans].
  revert x. induction Hs as [|a t Ht IH Hall]; intros x Hx; [destruct Hx|].
  destruct t as [|b t'].
  - destruct Hx as [<-|[]]. simpl.
    (* a single element: reflexivity of [kle] from [nlt_le] *)
    destruct (kltb a a) eqn:E; [apply lt_le, E | apply nlt_le, E].
  - change (last (a :: b :: t') d) with (last (b :: t') d).
    destruct Hx as [<-|Hx].
    + apply kle_trans with b; [apply Forall_inv in Hall; exact Hall|].
      apply IH. left. reflexivity.
    + apply IH, Hx.
Qed.
End Sorting.

Lemma string_leb_trans (a b c : string) :
  String.leb a b = true -> String.leb b c = true -> String.leb a c = true.
Proof.
  revert b c. induction a as [|x a IH]; intros [|y b] [|z c]; unfold String.leb;
    cbn [String.compare]; try discriminate; try reflexivity; [].
  unfold Ascii.compare.
  destruct (N.compare_spec (N_of_ascii x) (N_of_ascii y)) as [Exy|Exy|Exy];
  destruct (N.compare_spec (N_of_ascii y) (N_of_ascii z)) as [Eyz|Eyz|Eyz];
  try discriminate; intros H1 H2.
  - assert (E : N.compare (N_of_ascii x) (N_of_ascii z) = Eq) by (apply N.compare_eq_iff; lia).
    rewrite E. exact (IH b c H1 H2).
  - assert (E : N.compare (N_of_ascii x) (N_of_ascii z) = Lt) by (apply N.compare_lt_iff; lia).
    rewrite E. reflexivity.
  - assert (E : N.compare (N_of_ascii x) (N_of_ascii z) = Lt) by (apply N.compare_lt_iff; lia).
    rewrite E. reflexivity.
  - assert (E : N.compare (N_of_ascii x) (N_of_ascii z) = Lt) by (apply N.compare_lt_iff; lia).
    rewrite E. reflexivity.
Qed.

Lemma string_ltb_leb (a b : string) : String.ltb a b = true -> String.leb a b = true.
Proof. unfold String.ltb, String.leb. destruct (String.compare a b); congruence. Qed.

Lemma string_nltb_leb (a b : string) : String.ltb a b = false -> String.leb b a = true.
Proof.
  unfold String.ltb, String.leb. rewrite String.compare_antisym.
  destruct (String.compare b a); simpl; congruence.
Qed.

Lemma last_in {A : Type} (l : list A) (d : A) : l <> [] -> In (last l d) l.
Proof.
  intros Hne. rewrite (app_removelast_last d Hne) at 2.
  apply in_or_app. right. left. reflexivity.
Qed.

(** ** Extra properties of the code *)

(** [auto_load_excel] raises [FileNotFoundError] exactly when no entry of
    the folder matches [student_grades_*.xlsx]; otherwise the workbook it
    reads is one of the matching files, and the greatest of them in the
    (code point) order of their paths. *)
Theorem auto_load_excel_latest (folder : string) (listing : list string) :
  (auto_load_excel folder listing = FileNotFoundError <->
     forall n, In n listing -> glob_match n = false) /\
  (forall p, auto_load_excel folder listing = Found p ->
     In p (glob_files folder listing) /\
     forall q, In q (glob_files folder listing) -> String.leb q p = true).
Proof.
  unfold auto_load_excel.
  destruct (glob_files folder listing) as [|s l] eqn:G.
  - split; [|intros p H; discriminate].
    split; [|reflexivity]. intros _ n Hn.
    destruct (glob_match n) eqn:Hm; [|reflexivity]. exfalso.
    unfold glob_files in G. apply map_eq_nil in G.
    assert (Hf : In n (filter glob_match listing)) by (apply filter_In; auto).
    rewrite G in Hf. destruct Hf.
  - split.
    + split; [discriminate|]. intros H. exfalso.
      assert (Hs : In s (glob_files folder listing)) by (rewrite G; left; reflexivity).
      unfold glob_files in Hs. apply in_map_iff in Hs as [n [_ Hn]].
      apply filter_In in Hn as [Hn Hm]. rewrite (H n Hn) in Hm. discriminate.
    + intros p Hp. inversion Hp as [Ep]. clear Hp. subst p.
      change (insert_key String.ltb s (sort_keys String.ltb l))
        with (sort_keys String.ltb (s :: l)).
      pose proof (sort_keys_perm String.ltb (s :: l)) as Hperm.
      split.
      * apply (Permutation_in _ Hperm). apply last_in.
        intros E. rewrite E in Hperm. apply Permutation_nil in Hperm. discriminate.
      * intros q Hq.
        apply (last_sorted_max String.ltb (fun a b => String.leb a b = true)
                 string_ltb_leb string_nltb_leb string_leb_trans).
        -- exact (sort_keys_sorted String.ltb _ string_ltb_leb string_nltb_leb (s :: l)).
        -- apply (Permutation_in _ (Permutation_sym Hperm)), Hq.
Qed.

Lemma Qlt_bool_iff (x y : Q) : Qlt_bool x y = true <-> (x < y)%Q.
Proof.
  unfold Qlt_bool. rewrite negb_true_iff.
  split; intros H.
  - apply Qnot_le_lt. intros Hle. apply Qle_bool_iff in Hle. congruence.
  - destruct (Qle_bool y x) eqn:E; [|reflexivity].
    apply Qle_bool_iff in E. exfalso. apply (Qlt_not_le _ _ H E).
Qed.

Lemma table_alerts_math (table : list (string * group_stats)) (name : string) (m : Q) :
  In (LowMath name m) (table_alerts table) <->
  exists st, In (name, st) table /\ MathAvg st = Some m /\ (m < 70)%Q.
Proof.
  unfold table_alerts. rewrite in_flat_map. split.
  - intros [[k st] [Hin Ha]]. unfold row_alerts in Ha. apply in_app_iff in Ha as [Ha|Ha].
    + destruct (MathAvg st) as [m'|] eqn:Em; [|destruct Ha].
      destruct (Qlt_bool m' 70) eqn:El; [|destruct Ha].
      destruct Ha as [Ha|[]]. inversion Ha; subst.
      exists st. split; [exact Hin|]. split; [exact Em | apply Qlt_bool_iff, El].
    + destruct (PassRate st); [|destruct Ha].
      destruct (Qlt_bool _ _); [|destruct Ha]. destruct Ha as [Ha|[]]. discriminate.
  - intros [st [Hin [Em Hl]]]. exists (name, st). split; [exact Hin|].
    unfold row_alerts. rewrite Em. apply Qlt_bool_iff in Hl. rewrite Hl.
    apply in_app_iff. left. left. reflexivity.
Qed.

Lemma table_alerts_pass (table : list (string * group_stats)) (name : string) (p : Q) :
  In (LowPassRate name p) (table_alerts table) <->
  exists st, In (name, st) table /\ PassRate st = Some p /\ (p < 6 # 10)%Q.
Proof.
  unfold table_alerts. rewrite in_flat_map. split.
  - intros [[k st] [Hin Ha]]. unfold row_alerts in Ha. apply in_app_iff in Ha as [Ha|Ha].
    + destruct (MathAvg st); [|destruct Ha].
      destruct (Qlt_bool _ _); [|destruct Ha]. destruct Ha as [Ha|[]]. discriminate.
    + destruct (PassRate st) as [p'|] eqn:Ep; [|destruct Ha].
      destruct (Qlt_bool p' (6 # 10)) eqn:El; [|destruct Ha].
      destruct Ha as [Ha|[]]. inversion Ha; subst.
      exists st. split; [exact Hin|]. split; [exact Ep | apply Qlt_bool_iff, El].
  - intros [st [Hin [Ep Hl]]]. exists (name, st). split; [exact Hin|].
    unfold row_alerts. rewrite Ep. apply Qlt_bool_iff in Hl. rewrite Hl.
    apply in_app_iff. right. left. reflexivity.
Qed.

(** [generate_performance_alerts] in mode ["track"] (resp. ["cohort"])
    flags a group for its math average exactly when that average is
    non-null and below 70, and for its pass rate exactly when the rate is
    non-null and below 0.6; a null value is never flagged.  Any other mode
    prints only the header and [Invalid mode.]. *)
Theorem performance_alerts_flags (stats : stats_bundle) :
  (forall name m, In (LowMath name m) (generate_performance_alerts stats "track") <->
     exists st, In (name, st) (s_track stats) /\ MathAvg st = Some m /\ (m < 70)%Q) /\
  (forall name p, In (LowPassRate name p) (generate_performance_alerts stats "track") <->
     exists st, In (name, st) (s_track stats) /\ PassRate st = Some p /\ (p < 6 # 10)%Q) /\
  (forall name m, In (LowMath name m) (generate_performance_alerts stats "cohort") <->
     exists st, In (name, st) (s_cohort stats) /\ MathAvg st = Some m /\ (m < 70)%Q) /\
  (forall name p, In (LowPassRate name p) (generate_performance_alerts stats "cohort") <->
     exists st, In (name, st) (s_cohort stats) /\ PassRate st = Some p /\ (p < 6 # 10)%Q) /\
  (forall mode, mode <> "track"%string -> mode <> "cohort"%string ->
     generate_performance_alerts stats mode = [AlertsHeader; InvalidMode]).
Proof.
  unfold generate_performance_alerts. cbn [String.eqb Ascii.eqb Bool.eqb].
  split; [|split; [|split; [|split]]];
    try (intros name x; split;
         [intros [H|H]; [discriminate|]; apply in_app_iff in H as [H|[H|[]]];
            [|discriminate]
         |intros H; right; apply in_app_iff; left];
         first [apply table_alerts_math | apply table_alerts_pass]; exact H).
  intros mode H1 H2.
  apply String.eqb_neq in H1, H2. rewrite H1, H2. reflexivity.
Qed.

(** The track alerts on the statistics of a DataFrame only flag a track
    for its pass rate (resp. its math average) when some row of that track
    has a non-null [Passed (Y/N)] (resp. [Math]) value: a track whose
    pass/fail values are all unknown is never reported as failing. *)
Theorem track_alerts_need_data (df : list record) :
  (forall name p,
     In (LowPassRate name p) (generate_performance_alerts (compute_statistics df) "track") ->
     somes (map passed (filter (key_matches String.eqb track name) df)) <> []) /\
  (forall name m,
     In (LowMath name m) (generate_performance_alerts (compute_statistics df) "track") ->
     somes (map math (filter (key_matches String.eqb track name) df)) <> []).
Proof.
  unfold generate_performance_alerts. cbn [String.eqb Ascii.eqb Bool.eqb].
  split; intros name x [H|H]; try discriminate;
    apply in_app_iff in H as [H|[H|[]]]; try discriminate.
  - apply table_alerts_pass in H as [st [Hin [Ep _]]].
    apply agg_table_in in Hin. subst st.
    destruct (agg_group_ok (filter (key_matches String.eqb track name) df))
      as [_ [Hnull _]].
    intros E. rewrite (Hnull E) in Ep. discriminate.
  - apply table_alerts_math in H as [st [Hin [Em _]]].
    apply agg_table_in in Hin. subst st.
    destruct (agg_group_ok (filter (key_matches String.eqb track name) df))
      as [_ [_ [Hnull _]]].
    intros E. rewrite (Hnull E) in Em. discriminate.
Qed.

Lemma lookup_key_map {V : Type} (f : string -> V) (keys : list string) (t : string) :
  In t keys -> lookup_key String.eqb t (map (fun k => (k, f k)) keys) = Some (f t).
Proof.
  induction keys as [|k ks IH]; simpl; intros H; [destruct H|].
  destruct (String.eqb_spec k t) as [<-|Hne]; [reflexivity|].
  apply IH. destruct H as [E|H]; [contradiction | exact H].
Qed.

Lemma key_matches_track (t : string) (r : record) :
  key_matches String.eqb track t r = track_eq (track r) (Some t).
Proof. unfold key_matches, track_eq. destruct (track r); reflexivity. Qed.

(** The figures [generate_visuals] saves, one by one. *)
Lemma in_visuals (folder : string) (df : list record) (fig : figure) :
  In fig (generate_visuals folder df) ->
  (exists t, In t (unique_acc option_string_eqb [] (map track df)) /\
     fig = HistPlot t (map history (filter (fun r => track_eq (track r) t) df))
             (folder ++ "/history_distribution_" ++ track_text t ++ ".png")%string) \/
  fig = BoxPlot (map (fun r => (track r, history r)) df)
          (folder ++ "/history_boxplot.png")%string \/
  fig = MathBar (map (fun '(k, g) => (k, mean (map math g))) (groupby_track df))
          (folder ++ "/math_comparison.png")%string \/
  (exists t, fig = CorrPlot t (map (fun r => (attendance r, project r))
                                 (filter (fun r => track_eq (track r) t) df))
                 (folder ++ "/attendance_project_corr_" ++ track_text t ++ ".png")%string).
Proof.
  unfold generate_visuals. intros H.
  apply in_app_iff in H as [H|H].
  - left. apply in_map_iff in H as [t [E Ht]]. exists t. split; [exact Ht | symmetry; exact E].
  - apply in_app_iff in H as [[H|[H|[]]]|H]; [right; left; symmetry; exact H
      | right; right; left; symmetry; exact H|].
    right; right; right. apply in_map_iff in H as [t [E _]]. exists t. symmetry. exact E.
Qed.

Lemma submenu_shorter (opts : list (string * action)) (inp r : list string)
  (tr : list action) :
  submenu opts inp = (tr, Some r) -> (List.length r < List.length inp)%nat.
Proof.
  revert tr. induction inp as [inp IH] using (induction_ltof1 _ (@List.length _)).
  unfold ltof in IH. intros tr H.
  destruct inp as [|c rest]; [discriminate|]. simpl in H.
  destruct (String.eqb c "0"); [inversion H; subst; simpl; lia|].
  destruct rest as [|x rest']; [discriminate|].
  destruct (submenu opts rest') as [tr' r'] eqn:E. inversion H; subst r'.
  specialize (IH rest' ltac:(simpl; lia) tr' E). simpl. lia.
Qed.

Lemma main_loop_fuel (f g : nat) (inp : list string) :
  (List.length inp < f)%nat -> (List.length inp < g)%nat -> main_loop f inp = main_loop g inp.
Proof.
  revert g inp. induction f as [|f IH]; intros [|g] inp Hf Hg; try lia.
  destruct inp as [|c rest]; [reflexivity|]. cbn [main_loop].
  destruct (main_choice c) as [opts|].
  - destruct (submenu opts rest) as [tr [r|]] eqn:E; [|reflexivity].
    apply submenu_shorter in E. simpl in Hf, Hg.
    rewrite (IH g r) by lia. reflexivity.
  - destruct (String.eqb c "0"); [reflexivity|].
    destruct rest as [|x rest']; [reflexivity|]. simpl in Hf, Hg.
    apply IH; lia.
Qed.

Lemma main_loop_ends (f : nat) (inp : list string) :
  (List.length inp < f)%nat -> snd (main_loop f inp) = Quit \/ snd (main_loop f inp) = EOFError.
Proof.
  revert inp. induction f as [|f IH]; intros inp Hf; [lia|].
  destruct inp as [|c rest]; [right; reflexivity|]. cbn [main_loop].
  destruct (main_choice c) as [opts|].
  - destruct (submenu opts rest) as [tr [r|]] eqn:E; [|right; reflexivity].
    apply submenu_shorter in E. simpl in Hf.
    specialize (IH r ltac:(lia)). destruct (main_loop f r) as [tr2 e]. exact IH.
  - destruct (String.eqb c "0"); [left; reflexivity|].
    destruct rest as [|x rest']; [right; reflexivity|]. simpl in Hf.
    apply IH. lia.
Qed.

Lemma main_loop_step (f : nat) (c : string) (rest : list string) :
  main_loop (S f) (c :: rest) =
  match main_choice c with
  | Some opts =>
      let (tr, r) := submenu opts rest in
      match r with
      | None => (tr, EOFError)
      | Some rest' => let (tr2, e) := main_loop f rest' in (tr ++ tr2, e)
      end
  | None =>
      if String.eqb c "0" then ([Goodbye], Quit)
      else match rest with [] => ([], EOFError) | _ :: rest' => main_loop f rest' end
  end.
Proof. reflexivity. Qed.

(** The main menu of the command line: ["0"] quits at once, whatever
    follows; after an invalid choice the next line is swallowed by the
    [Press ENTER] prompt, whatever it is (so a ["0"] typed right after an
    invalid choice does not quit); entering a submenu and leaving it with
    ["0"] comes back to the main menu with nothing done; and every run on a
    finite input ends, either by quitting or with [EOFError]. *)
Theorem main_menu_steps :
  (forall rest, main_menu ("0"%string :: rest) = ([Goodbye], Quit)) /\
  (forall c x rest, main_choice c = None -> c <> "0"%string ->
     main_menu (c :: x :: rest) = main_menu rest) /\
  (forall c opts rest, main_choice c = Some opts ->
     main_menu (c :: "0"%string :: rest) = main_menu rest) /\
  (forall inp, snd (main_menu inp) = Quit \/ snd (main_menu inp) = EOFError).
Proof.
  split; [|split; [|split]].
  - intros rest. reflexivity.
  - intros c x rest Hc H0. unfold main_menu. cbn [List.length].
    rewrite main_loop_step, Hc. apply String.eqb_neq in H0. rewrite H0.
    apply main_loop_fuel; lia.
  - intros c opts rest Hc. unfold main_menu. cbn [List.length].
    rewrite main_loop_step, Hc. cbn [submenu String.eqb Ascii.eqb Bool.eqb].
    rewrite (main_loop_fuel (S (S (List.length rest))) (S (List.length rest))) by lia.
    destruct (main_loop _ rest). reflexivity.
  - intros inp. apply main_loop_ends. lia.
Qed.

Lemma map_outcome_error {A B : Type} (f : A -> outcome B) (l : list A) :
  map_outcome f l = TypeError <-> exists x, In x l /\ f x = TypeError.
Proof.
  induction l as [|x t IH]; simpl.
  - split; [discriminate | intros [x [[] _]]].
  - destruct (f x) as [y|] eqn:Hf.
    + destruct (map_outcome f t) as [ys|] eqn:Ht.
      * split; [discriminate|]. intros [x' [[<-|Hx'] He]]; [congruence|].
        assert (@Ok (list B) ys = TypeError) by (apply IH; eauto). discriminate.
      * split; [|reflexivity]. intros _. destruct (proj1 IH eq_refl) as [x' [Hx' He]].
        exists x'. auto.
    + split; [|reflexivity]. intros _. exists x. auto.
Qed.

Lemma map_outcome_map {A B C : Type} (f : A -> outcome B) (g : B -> C) (h : A -> C)
  (l : list A) (ys : list B) :
  (forall x y, f x = Ok y -> g y = h x) ->
  map_outcome f l = Ok ys -> map g ys = map h l.
Proof.
  intros Hgh. revert ys. induction l as [|x t IH]; simpl; intros ys H.
  - inversion H; reflexivity.
  - destruct (f x) as [y|] eqn:Hf; [|discriminate].
    destruct (map_outcome f t) as [ys'|] eqn:Ht; [|discriminate].
    inversion H; subst. simpl. rewrite (Hgh _ _ Hf), (IH ys' eq_refl). reflexivity.
Qed.

Lemma clean_row_error (name : string) (r : raw_row) :
  clean_row name r = TypeError <-> replace_missing (r_income r) = CNA.
Proof.
  unfold clean_row, astype_bool.
  destruct (replace_missing (r_income r)); split; congruence.
Qed.

Lemma clean_row_track (name : string) (r : raw_row) (rec : record) :
  clean_row name r = Ok rec -> track rec = cell_label (replace_missing (CStr name)).
Proof.
  unfold clean_row. destruct (astype_bool _); [|discriminate].
  intros H. inversion H. reflexivity.
Qed.

Lemma map_outcome_Forall2 {A B : Type} (f : A -> outcome B) (l : list A) (ys : list B) :
  map_outcome f l = Ok ys -> Forall2 (fun x y => f x = Ok y) l ys.
Proof.
  revert ys. induction l as [|x t IH]; simpl; intros ys H.
  - inversion H. constructor.
  - destruct (f x) as [y|] eqn:Hf; [|discriminate].
    destruct (map_outcome f t) as [ys'|] eqn:Ht; [|discriminate].
    inversion H; subst. constructor; [exact Hf | exact (IH ys' eq_refl)].
Qed.

Lemma Forall2_concat {A B : Type} (R : A -> B -> Prop) (ls : list (list A)) (ds : list (list B)) :
  Forall2 (Forall2 R) ls ds -> Forall2 R (List.concat ls) (List.concat ds).
Proof.
  induction 1 as [|l d ls ds Hld _ IH]; simpl; [constructor|].
  apply Forall2_app; assumption.
Qed.

(** [load_and_clean_excel] fails exactly when one row of one sheet has an
    income cell that the [replace] step turns into [pd.NA]; otherwise the
    cleaned DataFrame has one row per source row, sheet after sheet and
    row after row: its row [i] is the cleaning, with its sheet's name, of
    the source row [i] of the sheets laid end to end; in particular each
    row carries the [Track] given by its sheet's name. *)
Theorem load_and_clean_excel_rows (sheets : list (string * list raw_row)) :
  (load_and_clean_excel sheets = TypeError <->
     exists name rows r, In (name, rows) sheets /\ In r rows /\
       replace_missing (r_income r) = CNA) /\
  (forall df, load_and_clean_excel sheets = Ok df ->
     Forall2 (fun '(name, r) rec => clean_row name r = Ok rec)
       (List.concat (map (fun '(name, rows) => map (fun r => (name, r)) rows) sheets)) df) /\
  (forall df, load_and_clean_excel sheets = Ok df ->
     map track df =
     List.concat (map (fun '(name, rows) =>
                         repeat (cell_label (replace_missing (CStr name))) (List.length rows))
                      sheets)).
Proof.
  unfold load_and_clean_excel. split; [|split].
  - destruct (map_outcome _ sheets) as [dfs|] eqn:Hm.
    + split; [discriminate|]. intros [name [rows [r [Hs [Hr Hi]]]]].
      assert (E : map_outcome (fun '(name, rows) => map_outcome (clean_row name) rows) sheets
                  = TypeError).
      { apply map_outcome_error. exists (name, rows). split; [exact Hs|].
        apply map_outcome_error. exists r. split; [exact Hr|].
        apply clean_row_error. exact Hi. }
      congruence.
    + split; [intros _|reflexivity].
      apply map_outcome_error in Hm as [[name rows] [Hs He]].
      apply map_outcome_error in He as [r [Hr He]].
      apply clean_row_error in He. exists name, rows, r. auto.
  - intros df H. destruct (map_outcome _ sheets) as [dfs|] eqn:Hm; [|discriminate].
    inversion H; subst df. apply Forall2_concat.
    apply map_outcome_Forall2 in Hm. clear H.
    induction Hm as [|[name rows] d sh ds Hd _ IH]; cbn [map]; constructor; [|exact IH].
    apply map_outcome_Forall2 in Hd. clear IH.
    induction Hd as [|r rec rows recs Hr _ IHr]; cbn [map]; constructor; assumption.
  - intros df H. destruct (map_outcome _ sheets) as [dfs|] eqn:Hm; [|discriminate].
    inversion H; subst df. rewrite concat_map. f_equal.
    refine (map_outcome_map _ _ _ _ _ _ Hm).
    intros [name rows] d Hd. cbn beta iota in Hd |- *.
    rewrite (map_outcome_map _ track (fun _ => cell_label (replace_missing (CStr name)))
               rows d (clean_row_track name) Hd).
    clear. induction rows as [|r rows IH]; cbn [map repeat List.length]; [reflexivity|].
    rewrite IH. reflexivity.
Qed.

Lemma NoDup_unique_acc {K : Type} (keqb : K -> K -> bool)
  (keqb_spec : forall a b, keqb a b = true <-> a = b) (seen l : list K) :
  NoDup (unique_acc keqb seen l) /\
  (forall x, In x (unique_acc keqb seen l) -> ~ In x seen).
Proof.
  revert seen; induction l as [|y t IH]; simpl; intros seen; [split; [constructor | intros _ []]|].
  destruct (existsb (keqb y) seen) eqn:He; [exact (IH seen)|].
  destruct (IH (y :: seen)) as [Hnd Hout]. split.
  - constructor; [|exact Hnd]. intros Hy. apply (Hout y Hy). left. reflexivity.
  - intros x [->|Hx] Hs.
    + assert (existsb (keqb x) seen = true) by
        (apply existsb_exists; exists x; split; [exact Hs | apply keqb_spec; reflexivity]).
      congruence.
    + apply (Hout x Hx). right. exact Hs.
Qed.

Lemma count_some_filter {A : Type} (l : list (option A)) :
  count_some l = List.length (filter is_some l).
Proof.
  unfold count_some. induction l as [|[a|] t IH]; simpl; congruence.
Qed.

Lemma sum_indicator {K : Type} (keqb : K -> K -> bool)
  (keqb_spec : forall a b, keqb a b = true <-> a = b) (k0 : K) (ks : list K) :
  NoDup ks ->
  fold_right plus 0%nat (map (fun k => if keqb k0 k then 1%nat else 0%nat) ks) =
  (if existsb (keqb k0) ks then 1 else 0)%nat.
Proof.
  induction 1 as [|k ks Hk Hnd IH]; simpl; [reflexivity|].
  destruct (keqb k0 k) eqn:E; simpl; [|exact IH].
  apply keqb_spec in E. subst k0. rewrite IH.
  destruct (existsb (keqb k) ks) eqn:E'; [|reflexivity].
  apply existsb_exists in E' as [x [Hx Hkx]]. apply keqb_spec in Hkx. subst x. contradiction.
Qed.

Lemma sum_groups {K : Type} (keqb : K -> K -> bool)
  (keqb_spec : forall a b, keqb a b = true <-> a = b)
  (key : record -> option K) (p : record -> bool) (ks : list K) (df : list record) :
  NoDup ks ->
  fold_right plus 0%nat
    (map (fun k => List.length (filter p (filter (key_matches keqb key k) df))) ks) =
  List.length (filter (fun r => match key r with
                                | Some k => existsb (keqb k) ks && p r
                                | None => false end) df).
Proof.
  intros Hnd.
  assert (E : forall (f g : K -> nat) l,
    fold_right plus 0%nat (map (fun k => f k + g k)%nat l) =
    (fold_right plus 0%nat (map f l) + fold_right plus 0%nat (map g l))%nat).
  { intros f g l. induction l; simpl; lia. }
  assert (Z : forall l, fold_right plus 0%nat (map (fun _ : K => 0%nat) l) = 0%nat).
  { intros l. induction l; simpl; lia. }
  induction df as [|r df IH].
  - cbn [filter List.length]. apply Z.
  - transitivity (fold_right plus 0%nat
      (map (fun k => (if key_matches keqb key k r && p r then 1 else 0) +
                     List.length (filter p (filter (key_matches keqb key k) df)))%nat ks)).
    { f_equal. apply map_ext. intros k. cbn [filter].
      destruct (key_matches keqb key k r); cbn [filter andb];
        destruct (p r); reflexivity. }
    rewrite E, IH. cbn [filter]. unfold key_matches at 1.
    destruct (key r) as [k0|].
    + destruct (p r).
      * assert (E2 : map (fun k => if keqb k0 k && true then 1%nat else 0%nat) ks =
                     map (fun k => if keqb k0 k then 1%nat else 0%nat) ks)
          by (apply map_ext; intros k; rewrite andb_true_r; reflexivity).
        rewrite E2, (sum_indicator keqb keqb_spec k0 ks Hnd).
        destruct (existsb (keqb k0) ks); reflexivity.
      * assert (E2 : map (fun k => if keqb k0 k && false then 1%nat else 0%nat) ks =
                     map (fun _ => 0%nat) ks)
          by (apply map_ext; intros k; rewrite andb_false_r; reflexivity).
        rewrite E2, Z, andb_false_r. reflexivity.
    + rewrite Z. reflexivity.
Qed.

Lemma students_total_groupby {K : Type} (keqb kltb : K -> K -> bool)
  (keqb_spec : forall a b, keqb a b = true <-> a = b)
  (key : record -> option K) (df : list record) :
  students_total (agg_table (groupby keqb kltb key df)) =
  List.length (filter (fun r => is_some (key r) && is_some (track r)) df).
Proof.
  unfold students_total, agg_table, groupby. rewrite !map_map. cbn beta iota.
  set (ks := sort_keys kltb (unique_acc keqb [] (somes (map key df)))).
  assert (Hnd : NoDup ks).
  { apply (Permutation_NoDup (Permutation_sym (sort_keys_perm kltb _))).
    apply (NoDup_unique_acc keqb keqb_spec). }
  transitivity (fold_right plus 0%nat
    (map (fun k => List.length (filter (fun r => is_some (track r))
                                       (filter (key_matches keqb key k) df))) ks)).
  { f_equal. apply map_ext. intros k. cbn [agg_group Students].
    rewrite count_some_filter. clear. generalize (filter (key_matches keqb key k) df).
    induction l as [|r l IH]; simpl; [reflexivity|]. destruct (track r); simpl; congruence. }
  rewrite (sum_groups keqb keqb_spec key _ ks df Hnd).
  f_equal. apply filter_ext_in. intros r Hr.
  destruct (key r) as [k|] eqn:Hk; [|reflexivity]. simpl.
  replace (existsb (keqb k) ks) with true; [reflexivity|]. symmetry.
  apply existsb_exists. exists k. split; [|apply keqb_spec; reflexivity].
  unfold ks. apply in_sort_keys. apply in_unique_acc; [exact keqb_spec| |intros []].
  apply in_somes. rewrite <- Hk. apply in_map, Hr.
Qed.

(** The [Students] column counts the non-null [Track] values of a group
    ([("Track", "count")]): over the [track] table and over the [income]
    table it adds up to the number of rows of the DataFrame with a
    [Track]; over the [cohort] table, to the number of rows with both a
    [Track] and a [Cohort]. Rows of a null [Track] are counted nowhere. *)
Theorem students_totals (df : list record) :
  students_total (s_track (compute_statistics df)) = count_some (map track df) /\
  students_total (s_income (compute_statistics df)) = count_some (map track df) /\
  students_total (s_cohort (compute_statistics df)) =
    List.length (filter (fun r => is_some (track r) && is_some (cohort r)) df).
Proof.
  cbn [compute_statistics s_track s_income s_cohort].
  unfold groupby_track, groupby_income, groupby_cohort.
  rewrite !students_total_groupby by (apply String.eqb_eq || apply bool_eqb_spec).
  rewrite count_some_filter, filter_map_swap, length_map. split; [|split].
  - f_equal. apply filter_ext. intros r. destruct (track r); reflexivity.
  - reflexivity.
  - f_equal. apply filter_ext. intros r. apply andb_comm.
Qed.

Lemma Qsum_bounds (a b : Q) (xs : list Q) :
  (forall x, In x xs -> (a <= x <= b)%Q) ->
  (inject_Z (Z.of_nat (List.length xs)) * a <= Qsum xs <=
   inject_Z (Z.of_nat (List.length xs)) * b)%Q.
Proof.
  induction xs as [|x t IH]; intros H.
  - change (inject_Z (Z.of_nat (List.length (@nil Q)))) with 0%Q.
    change (Qsum []) with 0%Q. split; lra.
  - cbn [List.length Qsum fold_right]. fold (Qsum t).
    rewrite Nat2Z.inj_succ, <- Z.add_1_l, inject_Z_plus.
    destruct (H x (or_introl eq_refl)) as [Ha Hb].
    destruct (IH (fun y Hy => H y (or_intror Hy))) as [Ha' Hb'].
    change (inject_Z 1) with 1%Q. split; lra.
Qed.

Lemma mean_bounds (a b m : Q) (l : list (option Q)) :
  (forall x, In (Some x) l -> (a <= x <= b)%Q) -> mean l = Some m -> (a <= m <= b)%Q.
Proof.
  unfold mean. intros H E.
  destruct (somes l) as [|x t] eqn:Hs; [discriminate|]. inversion E; subst m. clear E.
  assert (Hin : forall y, In y (x :: t) -> (a <= y <= b)%Q).
  { intros y Hy. rewrite <- Hs in Hy. apply H, in_somes, Hy. }
  destruct (Qsum_bounds a b _ Hin) as [Hlo Hhi].
  set (n := inject_Z (Z.of_nat (List.length (x :: t)))) in *.
  assert (Hn : (0 < n)%Q).
  { unfold n, Qlt. cbn [List.length]. simpl. lia. }
  split.
  - apply Qle_shift_div_l; [exact Hn|]. rewrite Qmult_comm. exact Hlo.
  - apply Qle_shift_div_r; [exact Hn|]. rewrite Qmult_comm. exact Hhi.
Qed.

Lemma pass_mean_unit (l : list (option bool)) (p : Q) :
  pass_mean l = Some p -> (0 <= p <= 1)%Q.
Proof.
  unfold pass_mean. apply mean_bounds. intros x Hx.
  apply in_map_iff in Hx as [[c|] [Hc _]]; [|discriminate].
  inversion Hc. destruct c; cbn [bool_to_Q]; split; lra.
Qed.

(** Every pass rate [compute_statistics] reports, in the [track], [cohort]
    and [income] tables and in the global view, is a fraction in [[0, 1]]. *)
Theorem pass_rates_in_unit_interval (df : list record) :
  (forall k st p, In (k, st) (s_track (compute_statistics df)) ->
     PassRate st = Some p -> (0 <= p <= 1)%Q) /\
  (forall k st p, In (k, st) (s_cohort (compute_statistics df)) ->
     PassRate st = Some p -> (0 <= p <= 1)%Q) /\
  (forall k st p, In (k, st) (s_income (compute_statistics df)) ->
     PassRate st = Some p -> (0 <= p <= 1)%Q) /\
  (forall p, G_Passed (s_global (compute_statistics df)) = Some p -> (0 <= p <= 1)%Q).
Proof.
  cbn [compute_statistics s_track s_cohort s_income s_global G_Passed].
  split; [|split; [|split]];
    try (intros k st p Hk; rewrite (agg_table_in _ _ _ _ _ _ Hk); cbn [agg_group PassRate]);
    apply pass_mean_unit.
Qed.




Lemma groupby_fst {K : Type} (keqb kltb : K -> K -> bool) (key : record -> option K)
  (df : list record) :
  map fst (agg_table (groupby keqb kltb key df)) =
  sort_keys kltb (unique_acc keqb [] (somes (map key df))).
Proof.
  unfold agg_table, groupby. rewrite !map_map. cbn [fst]. apply map_id.
Qed.

(** The [track] table comes out of [groupby] with its default [sort=True]:
    its keys, the sheet names, are in increasing order, each one once. *)
Theorem group_keys_sorted_unique (df : list record) :
  Sorted (fun a b => String.leb a b = true) (map fst (s_track (compute_statistics df))) /\
  NoDup (map fst (s_track (compute_statistics df))).
Proof.
  cbn [compute_statistics s_track].
  unfold groupby_track. rewrite groupby_fst. split.
  - apply (sort_keys_sorted String.ltb (fun a b => String.leb a b = true)
             string_ltb_leb string_nltb_leb).
  - apply (Permutation_NoDup (Permutation_sym (sort_keys_perm String.ltb _))).
    apply (NoDup_unique_acc String.eqb String.eqb_eq).
Qed.

(** [generate_visuals] draws one History histogram per distinct [Track]
    value of the rows, and only one (the tracks of the histograms have no
    repetition); for a named track its data is exactly the
    [history_by_track] entry of that track, for a null track it is empty;
    and the bars of the math chart are exactly the [math_comparison] view
    of the same DataFrame. *)
Theorem visuals_match_statistics (folder : string) (df : list record) :
  (forall t, (exists data file, In (HistPlot t data file) (generate_visuals folder df))
             <-> In t (map track df)) /\
  (forall t data file, In (HistPlot (Some t) data file) (generate_visuals folder df) ->
     lookup_key String.eqb t (s_history_by_track (compute_statistics df)) = Some data) /\
  (forall data file, In (HistPlot None data file) (generate_visuals folder df) -> data = []) /\
  (forall bars file, In (MathBar bars file) (generate_visuals folder df) ->
     bars = s_math_comparison (compute_statistics df)) /\
  NoDup (hist_tracks (generate_visuals folder df)).
Proof.
  split; [|split; [|split; [|split]]].
  - intros t. split.
    + intros [data [file H]]. apply in_visuals in H
        as [[t' [Ht' E]]|[E|[E|[t' E]]]]; try discriminate.
      inversion E; subst t'. exact (unique_acc_in _ _ _ _ Ht').
    + intros Ht. eexists. eexists. unfold generate_visuals. apply in_app_iff. left.
      apply in_map_iff. exists t. split; [reflexivity|].
      apply (in_unique_acc option_string_eqb option_string_eqb_spec); [exact Ht | intros []].
  - intros t data file H.
    apply in_visuals in H as [[t' [Ht' E]]|[E|[E|[t' E]]]]; try discriminate.
    inversion E; subst t' data file.
    cbn [compute_statistics s_history_by_track]. unfold groupby_track, groupby.
    rewrite map_map.
    rewrite (lookup_key_map (fun k => map history (filter (key_matches String.eqb track k) df))).
    + rewrite (filter_ext _ _ (key_matches_track t)). reflexivity.
    + apply in_sort_keys.
      apply (in_unique_acc String.eqb String.eqb_eq); [|intros []].
      apply in_somes. exact (unique_acc_in _ _ _ _ Ht').
  - intros data file H.
    apply in_visuals in H as [[t' [_ E]]|[E|[E|[t' E]]]]; try discriminate.
    inversion E; subst t' data.
    assert (Z : filter (fun r => track_eq (track r) None) df = []).
    { clear. induction df as [|r df IH]; [reflexivity|]. simpl. unfold track_eq at 1.
      destruct (track r); exact IH. }
    rewrite Z. reflexivity.
  - intros bars file H.
    apply in_visuals in H as [[t' [_ E]]|[E|[E|[t' E]]]]; try discriminate.
    inversion E; subst. reflexivity.
  - unfold hist_tracks, generate_visuals. rewrite !flat_map_app, !flat_map_concat_map, !map_map.
    cbn beta iota.
    assert (Z : forall l : list (option string),
               List.concat (map (fun _ => @nil (option string)) l) = []).
    { intros l. induction l as [|a l IH]; [reflexivity | exact IH]. }
    assert (C : forall l : list (option string), List.concat (map (fun t => [t]) l) = l).
    { intros l. induction l as [|a l IH]; [reflexivity | simpl; rewrite IH; reflexivity]. }
    rewrite Z, C. cbn [map List.concat app]. rewrite app_nil_r.
    apply (NoDup_unique_acc option_string_eqb option_string_eqb_spec).
Qed.
